(** * pywidevine: the [license] command of [pywidevine/main.py]

    A shallow embedding of the license-acquisition flow [license_] and
    of the effects it performs: calls to the device loader, to the Cdm
    session, to [requests.post] and to the logger.  Every effect is
    recorded, in program order, in a trace; the properties of the flow
    are properties of that trace, for every behaviour of the external
    collaborators. *)

From Stdlib Require Import ZArith List String Ascii Bool Lia.
From Stdlib Require Import Strings.Byte DecimalString.
Import ListNotations.

Local Open Scope string_scope.
Local Open Scope Z_scope.

(** ** Data *)

(** Python [bytes]. *)
Definition bytes := list byte.

(** [pathlib.Path], by its text. *)
Definition Path := string.

(** A raised Python exception, by the name of its class. *)
Inductive PyExc : Type :=
| Exc (name : string).

(** What a call of an external function does: it returns or it raises. *)
Inductive result (A : Type) : Type :=
| Returns (a : A)
| Raises (e : PyExc).
Arguments Returns {A} a.
Arguments Raises {A} e.

(** Modelled from the spec: [pywidevine.license_protocol_pb2.LicenseType]
    is not among the sources; the spec gives its members. *)
Inductive LicenseType : Type :=
| STREAMING
| OFFLINE
| AUTOMATIC.

(** Modelled from the spec: [LicenseType.Value(name)], the member of that
    name; protobuf raises [ValueError] for a name the enum does not have. *)
Definition LicenseType_Value (name : string) : result LicenseType :=
  if String.eqb name "STREAMING" then Returns STREAMING
  else if String.eqb name "OFFLINE" then Returns OFFLINE
  else if String.eqb name "AUTOMATIC" then Returns AUTOMATIC
  else Raises (Exc "ValueError").

(** The part of a [requests.Response] the flow reads. *)
Record Response : Type := mkResponse {
  status_code : Z;
  text : string;
  content : bytes
}.

(** Modelled from the spec: the class of a key identifier is not among the
    sources.  [license_] reads its attribute [hex] and does not call it
    (line 112), so the identifier is an object that has such an attribute,
    not Python [bytes], whose [hex] is a method; the spec has the attribute
    as the hexadecimal key identifier.  The identifier is given by the text
    the f-string writes for that attribute. *)
Module KeyId.
Record t : Type := make {
  hex : string
}.
End KeyId.

(** Modelled from the spec: the key class of [pywidevine.cdm] is not among
    the sources.  A key has a usage-type tag, a key identifier and key
    material; the key material is [bytes], on which line 112 calls
    [hex()]. *)
Record Key : Type := mkKey {
  type : string;
  kid : KeyId.t;
  key : bytes
}.

(** ** Formatting *)

(** [str(n)] of a Python [int], as an f-string renders it. *)
Definition str_int (n : Z) : string :=
  NilZero.string_of_int (Z.to_int n).

Definition hex_digit (n : N) : ascii :=
  match n with
  | 0 => "0" | 1 => "1" | 2 => "2" | 3 => "3"
  | 4 => "4" | 5 => "5" | 6 => "6" | 7 => "7"
  | 8 => "8" | 9 => "9" | 10 => "a" | 11 => "b"
  | 12 => "c" | 13 => "d" | 14 => "e" | _ => "f"
  end%N%char.

(** [bytes.hex()]: two lower-case digits per byte, high nibble first. *)
Fixpoint hex (b : bytes) : string :=
  match b with
  | [] => EmptyString
  | x :: b' =>
      String (hex_digit (Byte.to_N x / 16))
        (String (hex_digit (Byte.to_N x mod 16)) (hex b'))
  end.

Definition is_hex_digit (c : ascii) : bool :=
  let n := N_of_ascii c in
  ((48 <=? n) && (n <=? 57) || (97 <=? n) && (n <=? 102))%N.

Definition hex_value (c : ascii) : N :=
  let n := N_of_ascii c in
  if (n <=? 57)%N then (n - 48)%N else (n - 87)%N.

(** A text made of the digits [0-9a-f] only. *)
Definition all_hex_digits (s : string) : bool :=
  forallb is_hex_digit (list_ascii_of_string s).

(** [bytes.fromhex], on strings of hexadecimal digits. *)
Fixpoint fromhex (s : string) : option bytes :=
  match s with
  | EmptyString => Some []
  | String hi (String lo s') =>
      if is_hex_digit hi && is_hex_digit lo then
        match Byte.of_N (hex_value hi * 16 + hex_value lo), fromhex s' with
        | Some x, Some b => Some (x :: b)
        | _, _ => None
        end
      else None
  | String _ EmptyString => None
  end.

(** The f-string [f"[{key.type}] {key.kid.hex}:{key.key.hex()}"]: the
    attribute [hex] of the identifier, the method [hex()] of the key
    material. *)
Definition key_line (k : Key) : string :=
  "[" ++ type k ++ "] " ++ KeyId.hex (kid k) ++ ":" ++ hex (key k).

(** ** The external collaborators

    [Device], [Cdm] and the license server are outside the flow.  Their
    state (the file system, the session's internals, the server) is the
    [world]; each operation maps a world to what the call does and the
    world after it. *)
Record Collaborators : Type := mkCollaborators {
  world : Type;
  Device : Type;
  Cdm : Type;
  system_id : Device -> Z;
  security_level : Device -> Z;
  Device_load : Path -> world -> result Device * world;
  Cdm_new : Device -> string -> LicenseType -> bool -> world -> result Cdm * world;
  service_certificate_challenge : Cdm -> world -> bytes;
  set_service_certificate : Cdm -> bytes -> world -> result unit * world;
  get_license_challenge : Cdm -> bool -> world -> result bytes * world;
  parse_license : Cdm -> bytes -> world -> result (list Key) * world;
  requests_post : string -> bytes -> world -> result Response * world
}.

Inductive level : Type :=
| DEBUG
| INFO
| ERROR.

(** ** Control: a statement goes on, returns from the function, or raises *)
Inductive flow (A : Type) : Type :=
| Next (a : A)
| Return_None
| Raise (e : PyExc).
Arguments Next {A} a.
Arguments Return_None {A}.
Arguments Raise {A} e.

Section Flow.

Context (C : Collaborators).

(** What is handed to a logging call: a formatted string or an object. *)
Inductive logmsg : Type :=
| Str (s : string)
| ObjDevice (d : Device C)
| ObjCdm (c : Cdm C)
| ObjBytes (b : bytes).

(** The effects of the flow, each with its arguments and what it did. *)
Inductive event : Type :=
| EvDeviceLoad (p : Path) (r : result (Device C))
| EvCdm (d : Device C) (pssh : string) (t : LicenseType) (raw : bool)
        (r : result (Cdm C))
| EvPost (url : string) (data : bytes) (r : result Response)
| EvSetServiceCertificate (c : Cdm C) (cert : bytes) (r : result unit)
| EvGetLicenseChallenge (c : Cdm C) (privacy_mode : bool) (r : result bytes)
| EvParseLicense (c : Cdm C) (licence : bytes) (r : result (list Key))
| EvLog (logger : string) (l : level) (m : logmsg).

Record state : Type := mkState {
  now : world C;
  trace : list event
}.

Definition M (A : Type) : Type := state -> flow A * state.

Definition ret {A} (a : A) : M A := fun s => (Next a, s).

Definition bind {A B} (m : M A) (k : A -> M B) : M B :=
  fun s =>
    match m s with
    | (Next a, s') => k a s'
    | (Return_None, s') => (Return_None, s')
    | (Raise e, s') => (Raise e, s')
    end.

Notation "x <- m ;; k" := (bind m (fun x => k))
  (at level 100, m at next level, right associativity).
Notation "m ;; k" := (bind m (fun _ => k))
  (at level 100, right associativity).

(** A bare [return]. *)
Definition return_ {A} : M A := fun s => (Return_None, s).

(** A call that cannot touch the world but may raise. *)
Definition eval {A} (r : result A) : M A :=
  fun s => match r with
           | Returns a => (Next a, s)
           | Raises e => (Raise e, s)
           end.

(** An attribute read. *)
Definition attr {A} (f : world C -> A) : M A := fun s => (Next (f (now s)), s).

(** A call of a collaborator, recorded with its outcome. *)
Definition call {A} (op : world C -> result A * world C)
    (ev : result A -> event) : M A :=
  fun s =>
    let (r, w') := op (now s) in
    let s' := mkState w' (trace s ++ [ev r]) in
    match r with
    | Returns a => (Next a, s')
    | Raises e => (Raise e, s')
    end.

Definition log_ (logger : string) (l : level) (m : logmsg) : M unit :=
  fun s => (Next tt, mkState (now s) (trace s ++ [EvLog logger l m])).

(** [for x in xs: body]. *)
Fixpoint for_ {A} (xs : list A) (body : A -> M unit) : M unit :=
  match xs with
  | [] => ret tt
  | x :: xs' => body x ;; for_ xs' body
  end.

(** ** [license_] (main.py, lines 44-112) *)
Definition license_ (device : Path) (pssh server type_ : string)
    (raw privacy : bool) : M unit :=
  let log := "license" in
  type_ <- eval (LicenseType_Value type_) ;;
  (* load device *)
  device <- call (Device_load C device) (EvDeviceLoad device) ;;
  log_ log INFO (Str ("[+] Loaded Device (" ++ str_int (system_id C device)
                      ++ " L" ++ str_int (security_level C device) ++ ")")) ;;
  log_ log DEBUG (ObjDevice device) ;;
  (* load cdm *)
  cdm <- call (Cdm_new C device pssh type_ raw) (EvCdm device pssh type_ raw) ;;
  log_ log INFO (Str ("[+] Loaded CDM with PSSH: " ++ pssh)) ;;
  log_ log DEBUG (ObjCdm cdm) ;;
  (if privacy then
     (* get service cert for license server via cert challenge *)
     data <- attr (service_certificate_challenge C cdm) ;;
     service_cert <- call (requests_post C server data) (EvPost server data) ;;
     (if negb (status_code service_cert =? 200) then
        log_ log ERROR
          (Str ("[-] Failed to get Service Privacy Certificate: ["
                ++ str_int (status_code service_cert) ++ "] "
                ++ text service_cert)) ;;
        return_
      else ret tt) ;;
     let service_cert := content service_cert in
     call (set_service_certificate C cdm service_cert)
          (EvSetServiceCertificate cdm service_cert) ;;
     log_ log INFO (Str "[+] Set Service Privacy Certificate") ;;
     log_ log DEBUG (ObjBytes service_cert)
   else ret tt) ;;
  (* get license challenge *)
  challenge <- call (get_license_challenge C cdm true)
                    (EvGetLicenseChallenge cdm true) ;;
  log_ log INFO (Str "[+] Created License Request Message (Challenge)") ;;
  log_ log DEBUG (ObjBytes challenge) ;;
  (* send license challenge *)
  licence <- call (requests_post C server challenge) (EvPost server challenge) ;;
  (if negb (status_code licence =? 200) then
     log_ log ERROR
       (Str ("[-] Failed to send challenge: ["
             ++ str_int (status_code licence) ++ "] " ++ text licence)) ;;
     return_
   else ret tt) ;;
  let licence := content licence in
  log_ log INFO (Str "[+] Got License Message") ;;
  log_ log DEBUG (ObjBytes licence) ;;
  (* parse license challenge *)
  keys <- call (parse_license C cdm licence) (EvParseLicense cdm licence) ;;
  log_ log INFO (Str "[+] License Parsed Successfully") ;;
  (* print keys *)
  for_ keys (fun key => log_ log INFO (Str (key_line key))).

End Flow.

Arguments Str {C} s.
Arguments ObjBytes {C} b.
Arguments EvPost {C} url data r.
Arguments EvLog {C} logger l m.
Arguments mkState {C} now trace.
Arguments now {C} s.
Arguments trace {C} s.

(** ** An invocation

    The command starts in some world with nothing done yet.  A function
    that falls off its end or executes [return] returns [None]; an
    exception leaves it. *)
Definition invoke (C : Collaborators) (device : Path) (pssh server type_ : string)
    (raw privacy : bool) (w : world C) : result unit * list (event C) :=
  match license_ C device pssh server type_ raw privacy (mkState w []) with
  | (Next _, s) => (Returns tt, trace s)
  | (Return_None, s) => (Returns tt, trace s)
  | (Raise e, s) => (Raises e, trace s)
  end.

(** ** Observing a trace *)
Section Observers.

Context {C : Collaborators}.

Definition is_post (e : event C) : bool :=
  match e with EvPost _ _ _ => true | _ => false end.

Definition is_set_certificate (e : event C) : bool :=
  match e with EvSetServiceCertificate _ _ _ _ => true | _ => false end.

Definition is_challenge (e : event C) : bool :=
  match e with EvGetLicenseChallenge _ _ _ _ => true | _ => false end.

Definition is_parse (e : event C) : bool :=
  match e with EvParseLicense _ _ _ _ => true | _ => false end.

(** How often an effect of some kind occurs. *)
Definition occurrences (p : event C -> bool) (tr : list (event C)) : nat :=
  List.length (filter p tr).

(** The network exchanges, in order: url, body sent, what came back. *)
Fixpoint posts (tr : list (event C)) : list (string * bytes * result Response) :=
  match tr with
  | [] => []
  | EvPost url data r :: tr' => (url, data, r) :: posts tr'
  | _ :: tr' => posts tr'
  end.

(** The privacy-mode flags handed to [get_license_challenge]. *)
Fixpoint challenge_flags (tr : list (event C)) : list bool :=
  match tr with
  | [] => []
  | EvGetLicenseChallenge _ _ pm _ :: tr' => pm :: challenge_flags tr'
  | _ :: tr' => challenge_flags tr'
  end.

(** What [get_license_challenge] gave back. *)
Fixpoint challenges (tr : list (event C)) : list (result bytes) :=
  match tr with
  | [] => []
  | EvGetLicenseChallenge _ _ _ r :: tr' => r :: challenges tr'
  | _ :: tr' => challenges tr'
  end.

(** The bytes handed to [parse_license]. *)
Fixpoint parsed (tr : list (event C)) : list bytes :=
  match tr with
  | [] => []
  | EvParseLicense _ _ b _ :: tr' => b :: parsed tr'
  | _ :: tr' => parsed tr'
  end.

(** The records logged at a level, in order. *)
Fixpoint logged (l : level) (tr : list (event C)) : list (logmsg C) :=
  match tr with
  | [] => []
  | EvLog _ l' m :: tr' =>
      match l, l' with
      | DEBUG, DEBUG | INFO, INFO | ERROR, ERROR => m :: logged l tr'
      | _, _ => logged l tr'
      end
  | _ :: tr' => logged l tr'
  end.

(** What follows the first effect of some kind; nothing if there is none. *)
Fixpoint after (p : event C -> bool) (tr : list (event C)) : list (event C) :=
  match tr with
  | [] => []
  | e :: tr' => if p e then tr' else after p tr'
  end.

(** What precedes the first effect of some kind; all of it if there is none. *)
Fixpoint before (p : event C -> bool) (tr : list (event C)) : list (event C) :=
  match tr with
  | [] => []
  | e :: tr' => if p e then [] else e :: before p tr'
  end.

(** The exchange came back with status 200. *)
Definition returned_200 (r : result Response) : bool :=
  match r with
  | Returns resp => status_code resp =? 200
  | Raises _ => false
  end.

(** With [--privacy], the first exchange is the certificate fetch. *)
Definition certificate_fetched (privacy : bool) (tr : list (event C)) : bool :=
  privacy &&
  match posts tr with
  | (_, _, r) :: _ => returned_200 r
  | [] => false
  end.

(** The records the key reporter writes for a list of keys. *)
Definition report (keys : list Key) : list (event C) :=
  map (fun k => EvLog "license" INFO (Str (key_line k))) keys.

(** The flag handed to [get_license_challenge] is the [--privacy] option. *)
Definition privacy_passed_through (privacy : bool) (tr : list (event C)) : Prop :=
  forall pm, In pm (challenge_flags tr) -> pm = privacy.

(** One exchange without [--privacy], two with. *)
Definition one_or_two_exchanges (privacy : bool) (tr : list (event C)) : Prop :=
  List.length (posts tr) = if privacy then 2%nat else 1%nat.

(** Challenge generation and license parsing each occur exactly once. *)
Definition generated_and_parsed_once (tr : list (event C)) : Prop :=
  occurrences is_challenge tr = 1%nat /\ occurrences is_parse tr = 1%nat.

End Observers.

Arguments report : clear implicits.

(** ** A scripted world

    The server answers from a script, one response per request, and the
    connection fails when the script is exhausted; the session parses
    every license into a fixed list of keys. *)
Module Scripted.

Definition collaborators (keys : list Key) : Collaborators :=
  {| world := list Response;
     Device := unit;
     Cdm := unit;
     system_id := fun _ => 4445;
     security_level := fun _ => 3;
     Device_load := fun _ w => (Returns tt, w);
     Cdm_new := fun _ _ _ _ w => (Returns tt, w);
     service_certificate_challenge := fun _ _ => [x08; x04];
     set_service_certificate := fun _ _ w => (Returns tt, w);
     get_license_challenge := fun _ _ w => (Returns [x08; x01; x12; x00], w);
     parse_license := fun _ _ w => (Returns keys, w);
     requests_post := fun _ _ w =>
       match w with
       | [] => (Raises (Exc "ConnectionError"), [])
       | r :: w' => (Returns r, w')
       end |}.

(** A content key; the identifier's [hex] is 32 digits, as a UUID's is. *)
Definition content_key : Key :=
  {| type := "CONTENT";
     kid := KeyId.make "00000000000000000000000000001122";
     key := [xaa; xbb] |}.

Definition scenario : Collaborators := collaborators [content_key].

Definition granted : Response :=
  {| status_code := 200; text := "ok"; content := [x08; x02] |}.

Definition denied : Response :=
  {| status_code := 500; text := "denied"; content := [] |}.

(** [license test.dev AAAA http://svc/license], with or without [--privacy]. *)
Definition run (privacy : bool) (script : list Response)
  : result unit * list (event scenario) :=
  invoke scenario "test.dev" "AAAA" "http://svc/license" "STREAMING"
         false privacy script.

End Scripted.

(** ** The calls of an invocation *)
Section Calls.

Context {C : Collaborators}.

(** The exception a recorded call ended with, if it raised. *)
Definition raised (e : event C) : option PyExc :=
  match e with
  | EvDeviceLoad _ _ (Raises x)
  | EvCdm _ _ _ _ _ (Raises x)
  | EvPost _ _ (Raises x)
  | EvSetServiceCertificate _ _ _ (Raises x)
  | EvGetLicenseChallenge _ _ _ (Raises x)
  | EvParseLicense _ _ _ (Raises x) => Some x
  | _ => None
  end.

(** The session a recorded call was made on. *)
Definition session_of (e : event C) : option (Cdm C) :=
  match e with
  | EvSetServiceCertificate _ c _ _
  | EvGetLicenseChallenge _ c _ _
  | EvParseLicense _ c _ _ => Some c
  | _ => None
  end.

Definition is_cdm (e : event C) : bool :=
  match e with EvCdm _ _ _ _ _ _ => true | _ => false end.

Definition is_device_load (e : event C) : bool :=
  match e with EvDeviceLoad _ _ _ => true | _ => false end.

(** The collaborators' operations. *)
Inductive operation : Type :=
| OpDeviceLoad
| OpCdm
| OpPost
| OpSetServiceCertificate
| OpGetLicenseChallenge
| OpParseLicense.

(** The operations called, in order; logging apart. *)
Fixpoint calls (tr : list (event C)) : list operation :=
  match tr with
  | [] => []
  | EvDeviceLoad _ _ _ :: tr' => OpDeviceLoad :: calls tr'
  | EvCdm _ _ _ _ _ _ :: tr' => OpCdm :: calls tr'
  | EvPost _ _ _ :: tr' => OpPost :: calls tr'
  | EvSetServiceCertificate _ _ _ _ :: tr' => OpSetServiceCertificate :: calls tr'
  | EvGetLicenseChallenge _ _ _ _ :: tr' => OpGetLicenseChallenge :: calls tr'
  | EvParseLicense _ _ _ _ :: tr' => OpParseLicense :: calls tr'
  | EvLog _ _ _ :: tr' => calls tr'
  end.

(** The calls of a completed acquisition. *)
Definition full_flow (privacy : bool) : list operation :=
  [OpDeviceLoad; OpCdm]
  ++ (if privacy then [OpPost; OpSetServiceCertificate] else [])
  ++ [OpGetLicenseChallenge; OpPost; OpParseLicense].

(** The two severities an operator sees without [--debug]. *)
Definition visible (tr : list (event C)) : list (logmsg C) :=
  logged INFO tr ++ logged ERROR tr.

End Calls.

(** ** [main] (main.py, lines 17-30)

    The group callback performs two kinds of effect: it configures the
    root logger and it logs through it.  [__version__] and the year of
    [datetime.now()] come from outside. *)
Inductive main_effect : Type :=
| BasicConfig (l : level)
| RootInfo (s : string).

Definition main (__version__ : string) (current_year : Z)
    (version debug : bool) : flow unit * list main_effect :=
  let e1 := BasicConfig (if debug then DEBUG else INFO) in
  let copyright_years := str_int 2022 in
  let copyright_years :=
    if negb (2022 =? current_year)
    then str_int 2022 ++ "-" ++ str_int current_year
    else copyright_years in
  let e2 := RootInfo ("pywidevine version " ++ __version__
                      ++ " Copyright (c) " ++ copyright_years
                      ++ " rlaphoenix") in
  let e3 := RootInfo "https://github.com/rlaphoenix/pywidevine" in
  (if version then Return_None else Next tt, [e1; e2; e3]).

(** ** Running the flow symbolically *)

#[local] Arguments str_int : simpl never.
#[local] Arguments hex : simpl never.
#[local] Arguments key_line : simpl never.
#[local] Arguments String.append : simpl never.
#[local] Arguments Z.eqb : simpl never.

Section Execution.

Context (C : Collaborators).

Lemma for_log (keys : list Key) (s : state C) :
  for_ C keys (fun key => log_ C "license" INFO (Str (key_line key))) s
  = (Next tt, mkState (now s) (trace s ++ report C keys)).
Proof.
  revert s. induction keys as [|k keys IH]; intros s; simpl.
  - unfold ret. rewrite app_nil_r. destruct s; reflexivity.
  - unfold bind, log_ at 1. rewrite IH. simpl.
    rewrite <- app_assoc. reflexivity.
Qed.

Lemma report_filter (p : event C -> bool) (keys : list Key) :
  (forall n l m, p (EvLog n l m) = false) -> filter p (report C keys) = [].
Proof.
  intros Hp. induction keys as [|k keys IH]; simpl; [reflexivity|].
  rewrite Hp. exact IH.
Qed.

Lemma report_posts (keys : list Key) : posts (report C keys) = [].
Proof. induction keys; simpl; auto. Qed.

Lemma report_challenge_flags (keys : list Key) :
  challenge_flags (report C keys) = [].
Proof. induction keys; simpl; auto. Qed.

Lemma report_challenges (keys : list Key) : challenges (report C keys) = [].
Proof. induction keys; simpl; auto. Qed.

Lemma report_parsed (keys : list Key) : parsed (report C keys) = [].
Proof. induction keys; simpl; auto. Qed.

Lemma report_after (p : event C -> bool) (keys : list Key) :
  (forall n l m, p (EvLog n l m) = false) -> after p (report C keys) = [].
Proof.
  intros Hp. induction keys as [|k keys IH]; simpl; [reflexivity|].
  rewrite Hp. exact IH.
Qed.

Lemma report_logs (keys : list Key) (e : event C) :
  In e (report C keys) -> exists k, In k keys /\ e = EvLog "license" INFO (Str (key_line k)).
Proof.
  unfold report. rewrite in_map_iff. intros [k [Hk Hin]]. eauto.
Qed.

End Execution.

Create Rewrite HintDb trace_obs.
#[local] Hint Rewrite report_posts report_challenge_flags report_challenges
  report_parsed : trace_obs.

Ltac run_step :=
  match goal with
  | |- context [LicenseType_Value ?t] =>
      destruct (LicenseType_Value t) as [?|?] eqn:?
  | |- context [Device_load ?C ?p ?w] =>
      destruct (Device_load C p w) as [[?|?] ?] eqn:?
  | |- context [Cdm_new ?C ?d ?p ?t ?r ?w] =>
      destruct (Cdm_new C d p t r w) as [[?|?] ?] eqn:?
  | |- context [requests_post ?C ?u ?d ?w] =>
      destruct (requests_post C u d w) as [[?|?] ?] eqn:?
  | |- context [set_service_certificate ?C ?c ?b ?w] =>
      destruct (set_service_certificate C c b w) as [[[]|?] ?] eqn:?
  | |- context [get_license_challenge ?C ?c ?b ?w] =>
      destruct (get_license_challenge C c b w) as [[?|?] ?] eqn:?
  | |- context [parse_license ?C ?c ?b ?w] =>
      destruct (parse_license C c b w) as [[?|?] ?] eqn:?
  | |- context [status_code ?r =? 200] =>
      destruct (Z.eqb_spec (status_code r) 200)
  | |- context [for_ ?C ?ks _ ?s] =>
      let H := fresh in
      pose proof (for_log C ks s) as H; unfold log_ in H; rewrite H; clear H
  end; simpl.

(** Every path of an invocation, one goal each. *)
Ltac run_license :=
  unfold invoke, license_;
  unfold bind, call, eval, attr, log_, ret, return_; simpl;
  repeat run_step.

Ltac observe :=
  unfold occurrences; simpl;
  autorewrite with trace_obs;
  repeat rewrite report_filter by reflexivity;
  repeat rewrite report_after by reflexivity;
  simpl.

(** ** Hexadecimal rendering *)

Lemma hex_cons (x : byte) (b : bytes) :
  hex (x :: b) =
  String (hex_digit (Byte.to_N x / 16))
    (String (hex_digit (Byte.to_N x mod 16)) (hex b)).
Proof. reflexivity. Qed.

Lemma hex_digits_of_byte (x : byte) :
  let hi := hex_digit (Byte.to_N x / 16) in
  let lo := hex_digit (Byte.to_N x mod 16) in
  is_hex_digit hi && is_hex_digit lo = true /\
  Byte.of_N (hex_value hi * 16 + hex_value lo) = Some x.
Proof. destruct x; vm_compute; split; reflexivity. Qed.

(** [hex] writes two hexadecimal digits per byte, and reading them back
    gives the bytes. *)
Lemma fromhex_hex (b : bytes) : fromhex (hex b) = Some b.
Proof.
  induction b as [|x b IH]; [reflexivity|].
  rewrite hex_cons. cbn [fromhex].
  destruct (hex_digits_of_byte x) as [Hd Hv]. cbv zeta in Hd, Hv.
  rewrite Hd, Hv, IH. reflexivity.
Qed.


Lemma hex_digit_is_hex_digit (x : byte) :
  is_hex_digit (hex_digit (Byte.to_N x / 16)) = true /\
  is_hex_digit (hex_digit (Byte.to_N x mod 16)) = true.
Proof.
  destruct (hex_digits_of_byte x) as [H _]. cbv zeta in H.
  apply andb_true_iff in H. exact H.
Qed.

(** [hex] writes nothing but the digits [0-9a-f]. *)
Lemma hex_only_digits (b : bytes) (c : ascii) :
  In c (list_ascii_of_string (hex b)) -> is_hex_digit c = true.
Proof.
  induction b as [|x b IH]; [intros []|].
  rewrite hex_cons. cbn [list_ascii_of_string In].
  destruct (hex_digit_is_hex_digit x) as [H1 H2].
  intros [<-|[<-|H]]; auto.
Qed.


Lemma all_hex_digits_In (s : string) (c : ascii) :
  all_hex_digits s = true -> In c (list_ascii_of_string s) ->
  is_hex_digit c = true.
Proof.
  unfold all_hex_digits. intros H. apply (proj1 (forallb_forall _ _) H).
Qed.

(** ** The exchanges *)

Section Claims.

Context (C : Collaborators).
Variables (device : Path) (pssh server type_ : string) (raw : bool).

(** C10. Every network exchange of an invocation, the certificate fetch
    as well as the license fetch, is a POST to the server argument. *)
Theorem license_posts_to_server (privacy : bool) (w : world C)
    (url : string) (data : bytes) (r : result Response) :
  In (url, data, r)
     (posts (snd (invoke C device pssh server type_ raw privacy w))) ->
  url = server.
Proof.
  destruct privacy; run_license; observe;
    intuition congruence.
Qed.

(** C1. Whenever challenge generation is reached, the
    privacy-mode flag handed to [get_license_challenge] is [True], whatever
    the [--privacy] option; it equals the option when the caller opted in. *)
Theorem license_challenge_privacy_mode (privacy : bool) (w : world C)
    (pm : bool) :
  In pm (challenge_flags
           (snd (invoke C device pssh server type_ raw privacy w))) ->
  pm = true /\ (privacy = true -> pm = privacy).
Proof.
  destruct privacy; run_license; observe;
    intuition congruence.
Qed.

(** C2. In an invocation that returns (no collaborator raised):
    without [--privacy] exactly one exchange occurs, the license fetch,
    whose body is the challenge; with [--privacy] the certificate fetch
    comes first, before challenge generation, and the license fetch follows
    it exactly when the certificate fetch returned 200, else the
    certificate fetch is the only exchange. *)
Theorem license_exchanges (privacy : bool) (w : world C) :
  let tr := snd (invoke C device pssh server type_ raw privacy w) in
  fst (invoke C device pssh server type_ raw privacy w) = Returns tt ->
  if privacy then
    exists cert r1,
      posts (before is_challenge tr) = [(server, cert, Returns r1)] /\
      ((status_code r1 <> 200 /\ posts tr = [(server, cert, Returns r1)]) \/
       (status_code r1 = 200 /\
        exists ch r2,
          challenges tr = [Returns ch] /\
          posts (after is_challenge tr) = [(server, ch, Returns r2)] /\
          posts tr = [(server, cert, Returns r1); (server, ch, Returns r2)]))
  else
    exists ch r,
      challenges tr = [Returns ch] /\
      posts (before is_challenge tr) = [] /\
      posts tr = [(server, ch, Returns r)].
Proof.
  destruct privacy; run_license; observe; intros Hret; try discriminate.
  all: try (do 2 eexists; split; [reflexivity|];
            first [ left; split; [assumption | reflexivity]
                  | right; split; [assumption|];
                    do 2 eexists; repeat split; reflexivity ]).
  all: do 2 eexists; repeat split; reflexivity.
Qed.

(** C3. With [--privacy], when the certificate exchange returns a status
    other than 200, the error record is all that follows it:
    [set_service_certificate], challenge generation, the license exchange,
    license parsing and the key report are skipped. *)
Theorem license_certificate_failure (w : world C)
    (url : string) (data : bytes) (resp : Response) :
  let tr := snd (invoke C device pssh server type_ raw true w) in
  hd_error (posts tr) = Some (url, data, Returns resp) ->
  status_code resp <> 200 ->
  after is_post tr =
    [EvLog "license" ERROR
       (Str ("[-] Failed to get Service Privacy Certificate: ["
             ++ str_int (status_code resp) ++ "] " ++ text resp))] /\
  occurrences is_set_certificate tr = 0%nat /\
  occurrences is_challenge tr = 0%nat /\
  List.length (posts tr) = 1%nat /\
  occurrences is_parse tr = 0%nat /\
  logged INFO (after is_post tr) = [].
Proof.
  run_license; observe; intros Hhd Hst;
    try discriminate; injection Hhd as <- <- <-;
    try contradiction; auto 10.
Qed.

(** C4. When the license exchange, the one that follows challenge
    generation, returns a status other than 200, [parse_license] is never
    called and the error record is all that follows the exchange: no key
    is reported. *)
Theorem license_failure_no_keys (privacy : bool) (w : world C)
    (url : string) (data : bytes) (resp : Response) :
  let tr := snd (invoke C device pssh server type_ raw privacy w) in
  hd_error (posts (after is_challenge tr)) = Some (url, data, Returns resp) ->
  status_code resp <> 200 ->
  occurrences is_parse tr = 0%nat /\
  after is_parse tr = [] /\
  after is_post (after is_challenge tr) =
    [EvLog "license" ERROR
       (Str ("[-] Failed to send challenge: ["
             ++ str_int (status_code resp) ++ "] " ++ text resp))] /\
  logged INFO (after is_post (after is_challenge tr)) = [].
Proof.
  destruct privacy; run_license; observe; intros Hhd Hst;
    try discriminate; injection Hhd as <- <- <-;
    try contradiction; auto.
Qed.

(** C5. [set_service_certificate] is called once when [--privacy] is set
    and the certificate fetch returned 200, and not at all otherwise; the
    call comes before challenge generation, never after it. *)
Theorem license_sets_certificate (privacy : bool) (w : world C) :
  let tr := snd (invoke C device pssh server type_ raw privacy w) in
  occurrences is_set_certificate tr =
    (if certificate_fetched privacy tr then 1%nat else 0%nat) /\
  occurrences is_set_certificate (before is_challenge tr) =
    occurrences is_set_certificate tr /\
  occurrences is_set_certificate (after is_challenge tr) = 0%nat.
Proof.
  unfold certificate_fetched.
  destruct privacy; run_license; observe;
    try contradiction; auto.
Qed.

(** C6. The body sent in the license exchange is the value
    [get_license_challenge] returned, and when the exchange returns 200
    the bytes handed to [parse_license] are the content of the response. *)
Theorem license_transport_verbatim (privacy : bool) (w : world C)
    (url : string) (data : bytes) (r : result Response) :
  let tr := snd (invoke C device pssh server type_ raw privacy w) in
  hd_error (posts (after is_challenge tr)) = Some (url, data, r) ->
  challenges tr = [Returns data] /\
  (forall resp, r = Returns resp -> status_code resp = 200 ->
     parsed tr = [content resp]).
Proof.
  destruct privacy; run_license; observe; intros Hhd;
    try discriminate; injection Hhd as <- <- <-;
    (split; [reflexivity|]); intros resp Hr Hst;
    try discriminate; injection Hr as <-;
    try contradiction; reflexivity.
Qed.


(** C8. In every invocation challenge generation occurs at most
    once and license parsing at most once; each occurs exactly once in an
    invocation that returns and in which every exchange performed came
    back with status 200. *)
Theorem license_generates_and_parses_once (privacy : bool) (w : world C) :
  let tr := snd (invoke C device pssh server type_ raw privacy w) in
  (occurrences is_challenge tr <= 1)%nat /\
  (occurrences is_parse tr <= 1)%nat /\
  (fst (invoke C device pssh server type_ raw privacy w) = Returns tt ->
   (forall url data r, In (url, data, r) (posts tr) -> returned_200 r = true) ->
   occurrences is_challenge tr = 1%nat /\ occurrences is_parse tr = 1%nat).
Proof.
  destruct privacy; run_license; observe;
    (split; [lia|]); (split; [lia|]); intros Hret Hall;
    try discriminate; auto;
    match goal with
    | n : status_code ?a <> 200 |- _ =>
        exfalso; apply n; apply Z.eqb_eq;
        change (returned_200 (Returns a) = true);
        eapply Hall; eauto
    end.
Qed.

(** C9. When an exchange returns a status other than 200, the flow logs
    one ERROR record with the status code and the response text right
    after the exchange, does nothing more, and returns [None] as a
    completed invocation does: nothing is raised, [parse_license] is not
    called and no key is reported. *)
Theorem license_transport_failure (privacy : bool) (w : world C)
    (url : string) (data : bytes) (resp : Response) :
  let tr := snd (invoke C device pssh server type_ raw privacy w) in
  In (url, data, Returns resp) (posts tr) ->
  status_code resp <> 200 ->
  fst (invoke C device pssh server type_ raw privacy w) = Returns tt /\
  (exists (pre : list (event C)) (what : string),
     tr = (pre ++ [EvPost url data (Returns resp);
                   EvLog "license" ERROR
                     (Str (what ++ "[" ++ str_int (status_code resp) ++ "] "
                           ++ text resp))])%list) /\
  occurrences is_parse tr = 0%nat /\
  after is_parse tr = [].
Proof.
  destruct privacy; run_license; observe; intros Hin Hst;
    repeat (destruct Hin as [Hin|Hin]; try discriminate);
    try contradiction;
    injection Hin as <- <- <-; try contradiction;
    (split; [reflexivity|]); (split; [|split; reflexivity]);
    match goal with
    | |- exists pre what, ?tr = _ =>
        exists (firstn (List.length tr - 2) tr)
    end;
    first [ exists "[-] Failed to get Service Privacy Certificate: "; reflexivity
          | exists "[-] Failed to send challenge: "; reflexivity ].
Qed.

End Claims.

(** ** The scripted world: instances and counterexamples *)

Module Examples.

Import Scripted.

(** One key, one line. *)
Example scenario_granted :
  logged INFO (after is_parse (snd (run false [granted])))
  = [Str "[+] License Parsed Successfully";
     Str "[CONTENT] 00000000000000000000000000001122:aabb"].
Proof. reflexivity. Qed.

(** The spec's scenario with the request denied: one failure record. *)
Example scenario_denied :
  logged ERROR (snd (run false [denied]))
  = [Str "[-] Failed to send challenge: [500] denied"]
  /\ after is_parse (snd (run false [denied])) = [].
Proof. split; reflexivity. Qed.

Lemma license_posts_to_server_witness :
  In ("http://svc/license", [x08; x04], Returns granted)
     (posts (snd (run true [granted; denied]))) /\
  "http://svc/license" = "http://svc/license".
Proof.
  assert (H : In ("http://svc/license", [x08; x04], Returns granted)
                 (posts (snd (run true [granted; denied]))))
    by (left; reflexivity).
  split; [exact H|].
  exact (license_posts_to_server scenario "test.dev" "AAAA"
           "http://svc/license" "STREAMING" false true [granted; denied]
           _ _ _ H).
Defined.

(** Without [--privacy] the flag handed to [get_license_challenge] is
    [True], not the option. *)
Lemma license_privacy_flag_is_not_the_option :
  ~ privacy_passed_through false (snd (run false [granted])).
Proof.
  intros H. specialize (H true (or_introl eq_refl)). discriminate H.
Qed.

Lemma license_challenge_privacy_mode_witness :
  In true (challenge_flags (snd (run false [granted]))) /\
  (true = true /\ (false = true -> true = false)).
Proof.
  assert (H : In true (challenge_flags (snd (run false [granted]))))
    by (left; reflexivity).
  split; [exact H|].
  exact (license_challenge_privacy_mode scenario "test.dev" "AAAA"
           "http://svc/license" "STREAMING" false false [granted] true H).
Defined.

(** With [--privacy] and the certificate refused there is one exchange,
    not two. *)
Lemma license_one_exchange_when_certificate_refused :
  ~ one_or_two_exchanges true (snd (run true [denied])).
Proof. unfold one_or_two_exchanges. simpl. discriminate. Qed.

Lemma license_exchanges_witness :
  fst (run true [granted; granted]) = Returns tt /\
  exists cert r1,
    posts (before is_challenge (snd (run true [granted; granted])))
    = [("http://svc/license", cert, Returns r1)] /\
    ((status_code r1 <> 200 /\
      posts (snd (run true [granted; granted]))
      = [("http://svc/license", cert, Returns r1)]) \/
     (status_code r1 = 200 /\
      exists ch r2,
        challenges (snd (run true [granted; granted])) = [Returns ch] /\
        posts (after is_challenge (snd (run true [granted; granted])))
        = [("http://svc/license", ch, Returns r2)] /\
        posts (snd (run true [granted; granted]))
        = [("http://svc/license", cert, Returns r1);
           ("http://svc/license", ch, Returns r2)])).
Proof.
  assert (H : fst (run true [granted; granted]) = Returns tt) by reflexivity.
  split; [exact H|].
  exact (license_exchanges scenario "test.dev" "AAAA" "http://svc/license"
           "STREAMING" false true [granted; granted] H).
Defined.

Lemma license_certificate_failure_witness :
  hd_error (posts (snd (run true [denied])))
  = Some ("http://svc/license", [x08; x04], Returns denied) /\
  status_code denied <> 200 /\
  after is_post (snd (run true [denied]))
  = [EvLog "license" ERROR
       (Str "[-] Failed to get Service Privacy Certificate: [500] denied")] /\
  occurrences is_set_certificate (snd (run true [denied])) = 0%nat /\
  occurrences is_challenge (snd (run true [denied])) = 0%nat /\
  List.length (posts (snd (run true [denied]))) = 1%nat /\
  occurrences is_parse (snd (run true [denied])) = 0%nat /\
  logged INFO (after is_post (snd (run true [denied]))) = [].
Proof.
  assert (H : hd_error (posts (snd (run true [denied])))
              = Some ("http://svc/license", [x08; x04], Returns denied))
    by reflexivity.
  assert (Hst : status_code denied <> 200) by (simpl; lia).
  split; [exact H|]. split; [exact Hst|].
  exact (license_certificate_failure scenario "test.dev" "AAAA"
           "http://svc/license" "STREAMING" false [denied] _ _ _ H Hst).
Defined.

Lemma license_failure_no_keys_witness :
  hd_error (posts (after is_challenge (snd (run true [granted; denied]))))
  = Some ("http://svc/license", [x08; x01; x12; x00], Returns denied) /\
  status_code denied <> 200 /\
  occurrences is_parse (snd (run true [granted; denied])) = 0%nat /\
  after is_parse (snd (run true [granted; denied])) = [] /\
  after is_post (after is_challenge (snd (run true [granted; denied])))
  = [EvLog "license" ERROR
       (Str "[-] Failed to send challenge: [500] denied")] /\
  logged INFO
    (after is_post (after is_challenge (snd (run true [granted; denied]))))
  = [].
Proof.
  assert (H : hd_error
                (posts (after is_challenge (snd (run true [granted; denied]))))
              = Some ("http://svc/license", [x08; x01; x12; x00],
                      Returns denied))
    by reflexivity.
  assert (Hst : status_code denied <> 200) by (simpl; lia).
  split; [exact H|]. split; [exact Hst|].
  exact (license_failure_no_keys scenario "test.dev" "AAAA"
           "http://svc/license" "STREAMING" false true [granted; denied]
           _ _ _ H Hst).
Defined.

Lemma license_transport_verbatim_witness :
  hd_error (posts (after is_challenge (snd (run false [granted]))))
  = Some ("http://svc/license", [x08; x01; x12; x00], Returns granted) /\
  challenges (snd (run false [granted])) = [Returns [x08; x01; x12; x00]] /\
  (forall resp, Returns granted = Returns resp -> status_code resp = 200 ->
     parsed (snd (run false [granted])) = [content resp]).
Proof.
  assert (H : hd_error (posts (after is_challenge (snd (run false [granted]))))
              = Some ("http://svc/license", [x08; x01; x12; x00],
                      Returns granted))
    by reflexivity.
  split; [exact H|].
  exact (license_transport_verbatim scenario "test.dev" "AAAA"
           "http://svc/license" "STREAMING" false false [granted] _ _ _ H).
Defined.


(** With the certificate refused nothing is generated and nothing parsed. *)
Lemma license_nothing_generated_when_certificate_refused :
  ~ generated_and_parsed_once (snd (run true [denied])).
Proof. intros [H _]. discriminate H. Qed.

Lemma license_generates_and_parses_once_witness :
  fst (run true [granted; granted]) = Returns tt /\
  (forall url data r,
     In (url, data, r) (posts (snd (run true [granted; granted]))) ->
     returned_200 r = true) /\
  occurrences is_challenge (snd (run true [granted; granted])) = 1%nat /\
  occurrences is_parse (snd (run true [granted; granted])) = 1%nat.
Proof.
  assert (H : fst (run true [granted; granted]) = Returns tt) by reflexivity.
  assert (Hall : forall url data r,
             In (url, data, r) (posts (snd (run true [granted; granted]))) ->
             returned_200 r = true).
  { intros url data r [E|[E|[]]]; injection E as _ _ <-; reflexivity. }
  split; [exact H|]. split; [exact Hall|].
  exact (proj2 (proj2 (license_generates_and_parses_once scenario "test.dev"
                         "AAAA" "http://svc/license" "STREAMING" false true
                         [granted; granted])) H Hall).
Defined.

Lemma license_transport_failure_witness :
  In ("http://svc/license", [x08; x01; x12; x00], Returns denied)
     (posts (snd (run false [denied]))) /\
  status_code denied <> 200 /\
  fst (run false [denied]) = Returns tt /\
  (exists (pre : list (event scenario)) (what : string),
     snd (run false [denied])
     = (pre ++ [EvPost "http://svc/license" [x08; x01; x12; x00]
                  (Returns denied);
                EvLog "license" ERROR
                  (Str (what ++ "[" ++ str_int (status_code denied) ++ "] "
                        ++ text denied))])%list) /\
  occurrences is_parse (snd (run false [denied])) = 0%nat /\
  after is_parse (snd (run false [denied])) = [].
Proof.
  assert (H : In ("http://svc/license", [x08; x01; x12; x00], Returns denied)
                 (posts (snd (run false [denied]))))
    by (left; reflexivity).
  assert (Hst : status_code denied <> 200) by (simpl; lia).
  split; [exact H|]. split; [exact Hst|].
  exact (license_transport_failure scenario "test.dev" "AAAA"
           "http://svc/license" "STREAMING" false false [denied] _ _ _ H Hst).
Defined.

End Examples.

(** ** Errors of the collaborators *)

Section Propagation.

Context (C : Collaborators).
Variables (device : Path) (pssh server type_ : string) (raw : bool).

(** X1. When an invocation raises, the exception is the one a collaborator
    raised in the last call made, or the [ValueError] of an unknown license
    type name, raised before anything is done: nothing is caught, and
    nothing is logged after the failure. *)
Theorem license_raises_from_last_call (privacy : bool) (w : world C)
    (e : PyExc) :
  let tr := snd (invoke C device pssh server type_ raw privacy w) in
  fst (invoke C device pssh server type_ raw privacy w) = Raises e ->
  (tr = [] /\ LicenseType_Value type_ = Raises e) \/
  (exists (pre : list (event C)) (ev : event C),
     tr = (pre ++ [ev])%list /\ raised ev = Some e).
Proof.
  destruct privacy; run_license; intros Hr; try discriminate;
    injection Hr as <-;
    first [ left; split; reflexivity
          | right;
            match goal with
            | |- exists pre ev, ?tr = _ /\ _ => exists (removelast tr)
            end;
            eexists; split; reflexivity ].
Qed.

(** X2. A call that raises ends the invocation: it is the last effect, and the
    invocation raises the same exception. *)
Theorem license_raise_is_final (privacy : bool) (w : world C)
    (ev : event C) (e : PyExc) :
  let tr := snd (invoke C device pssh server type_ raw privacy w) in
  In ev tr -> raised ev = Some e ->
  fst (invoke C device pssh server type_ raw privacy w) = Raises e /\
  exists pre : list (event C), tr = (pre ++ [ev])%list.
Proof.
  destruct privacy; run_license; intros Hin Hr;
    repeat (destruct Hin as [Hin|Hin];
            [subst ev; simpl in Hr; try discriminate|]);
    try contradiction;
    try (apply report_logs in Hin; destruct Hin as [k [_ Hk]];
         subst ev; discriminate);
    injection Hr as <-; (split; [reflexivity|]);
    match goal with
    | |- exists pre, ?tr = _ => exists (removelast tr); reflexivity
    end.
Qed.

End Propagation.

(** ** The session and the order of its calls *)

Lemma report_calls (C : Collaborators) (keys : list Key) :
  calls (report C keys) = [].
Proof. induction keys; simpl; auto. Qed.

Section Session.

Context (C : Collaborators).
Variables (device : Path) (pssh server type_ : string) (raw : bool).

(** X3. The calls of an invocation are an initial part of the full flow, in
    its order: load the device, create the session, with [--privacy] fetch
    and set the certificate, generate the challenge, fetch the license,
    parse it.  The flow is complete exactly when [parse_license] is
    reached. *)
Theorem license_calls_in_order (privacy : bool) (w : world C) :
  let tr := snd (invoke C device pssh server type_ raw privacy w) in
  (exists rest, full_flow privacy = (calls tr ++ rest)%list) /\
  (occurrences is_parse tr = 1%nat <-> calls tr = full_flow privacy).
Proof.
  destruct privacy; run_license; unfold occurrences, full_flow; simpl;
    repeat rewrite report_filter by reflexivity;
    repeat rewrite report_calls; simpl;
    (split; [eexists; reflexivity
            | split; intros H; (discriminate || reflexivity)]).
Qed.

(** X4. There is one session per invocation: [Cdm] is constructed at most once,
    from the device that [Device.load] returned for the path given, with
    the pssh, the resolved license type and the raw flag of the command. *)
Theorem license_creates_one_session (privacy : bool) (w : world C)
    (d : Device C) (p : string) (t : LicenseType) (rw : bool)
    (r : result (Cdm C)) :
  let tr := snd (invoke C device pssh server type_ raw privacy w) in
  In (EvCdm C d p t rw r) tr ->
  p = pssh /\ rw = raw /\ LicenseType_Value type_ = Returns t /\
  hd_error tr = Some (EvDeviceLoad C device (Returns d)) /\
  occurrences is_cdm tr = 1%nat /\
  occurrences is_device_load tr = 1%nat.
Proof.
  destruct privacy; run_license; intros Hin;
    repeat (destruct Hin as [Hin|Hin]; try discriminate);
    try contradiction;
    try (apply report_logs in Hin; destruct Hin as [k [_ Hk]]; discriminate);
    injection Hin as <- <- <- <- <-;
    unfold occurrences; simpl;
    repeat rewrite report_filter by reflexivity; auto 10.
Qed.

(** X5. Every session call of an invocation, [set_service_certificate],
    [get_license_challenge] and [parse_license], is made on the session
    that the constructor returned. *)
Theorem license_uses_its_session (privacy : bool) (w : world C)
    (ev : event C) (c : Cdm C) :
  let tr := snd (invoke C device pssh server type_ raw privacy w) in
  In ev tr -> session_of ev = Some c ->
  exists d t, In (EvCdm C d pssh t raw (Returns c)) (before is_challenge tr)
              /\ LicenseType_Value type_ = Returns t.
Proof.
  destruct privacy; run_license; intros Hin Hs;
    repeat (destruct Hin as [Hin|Hin];
            [subst ev; simpl in Hs; try discriminate|]);
    try contradiction;
    try (apply report_logs in Hin; destruct Hin as [k [_ Hk]];
         subst ev; discriminate);
    injection Hs as <-;
    do 2 eexists; simpl;
    (split; [do 3 right; left; reflexivity | reflexivity]).
Qed.

(** X6. The certificate handed to [set_service_certificate] is the content of
    the response to the first exchange, which returned status 200. *)
Theorem license_sets_fetched_certificate (privacy : bool) (w : world C)
    (c : Cdm C) (cert : bytes) (r : result unit) :
  let tr := snd (invoke C device pssh server type_ raw privacy w) in
  In (EvSetServiceCertificate C c cert r) tr ->
  privacy = true /\
  exists data resp,
    hd_error (posts tr) = Some (server, data, Returns resp) /\
    status_code resp = 200 /\ cert = content resp.
Proof.
  destruct privacy; run_license; intros Hin;
    repeat (destruct Hin as [Hin|Hin]; try discriminate);
    try contradiction;
    try (apply report_logs in Hin; destruct Hin as [k [_ Hk]]; discriminate);
    injection Hin as <- <- <-;
    (split; [reflexivity|]); do 2 eexists; simpl; eauto.
Qed.

(** X7. With [--privacy], once the session exists the first exchange is the
    POST of the session's certificate challenge, as the session has it
    right after its creation, to the server. *)
Theorem license_fetches_certificate_first (w w0 w1 : world C)
    (t : LicenseType) (d : Device C) (c : Cdm C) :
  LicenseType_Value type_ = Returns t ->
  Device_load C device w = (Returns d, w0) ->
  Cdm_new C d pssh t raw w0 = (Returns c, w1) ->
  hd_error (posts (snd (invoke C device pssh server type_ raw true w)))
  = Some (server, service_certificate_challenge C c w1,
          fst (requests_post C server (service_certificate_challenge C c w1) w1)).
Proof.
  intros Ht Hd Hc.
  unfold invoke, license_;
    unfold bind, call, eval, attr, log_, ret, return_; simpl.
  rewrite Ht; simpl. rewrite Hd; simpl. rewrite Hc; simpl.
  repeat run_step; reflexivity.
Qed.

(** X8. With [--privacy], challenge generation is reached only after
    [set_service_certificate] has returned: the challenge is never
    generated with the certificate fetch failed or the certificate
    refused by the session. *)
Theorem license_certificate_before_challenge (w : world C) :
  let tr := snd (invoke C device pssh server type_ raw true w) in
  occurrences is_challenge tr = 1%nat ->
  exists c cert,
    In (EvSetServiceCertificate C c cert (Returns tt)) (before is_challenge tr).
Proof.
  run_license; unfold occurrences; simpl;
    repeat rewrite report_filter by reflexivity; simpl;
    intros H; try discriminate;
    do 2 eexists; do 7 right; left; reflexivity.
Qed.

End Session.

(** ** What the operator sees *)

Lemma report_logged_info (C : Collaborators) (keys : list Key) :
  logged INFO (report C keys) = map (fun k => Str (key_line k)) keys.
Proof. induction keys; simpl; congruence. Qed.

Lemma report_logged_error (C : Collaborators) (keys : list Key) :
  logged ERROR (report C keys) = [].
Proof. induction keys; simpl; auto. Qed.

Section Records.

Context (C : Collaborators).
Variables (device : Path) (pssh server type_ : string) (raw : bool).

(** X9. An invocation logs at most one ERROR record, and an invocation that
    returns has logged none exactly when it has parsed a license: the
    return value does not tell the two ways of returning apart, the ERROR
    record does. *)
Theorem license_error_record_tells_failure (privacy : bool) (w : world C) :
  let tr := snd (invoke C device pssh server type_ raw privacy w) in
  (List.length (logged ERROR tr) <= 1)%nat /\
  (fst (invoke C device pssh server type_ raw privacy w) = Returns tt ->
   (logged ERROR tr = [] <-> occurrences is_parse tr = 1%nat)).
Proof.
  destruct privacy; run_license; unfold occurrences; simpl;
    repeat rewrite report_filter by reflexivity;
    repeat rewrite report_logged_error; simpl;
    (split; [lia|]); intros Hr; try discriminate;
    split; intros H; (discriminate || reflexivity).
Qed.

(** X10. Whatever is logged at INFO or ERROR is a formatted string: the device,
    the session and the raw payloads (certificate, challenge, license) are
    handed to the logger at DEBUG only. *)
Theorem license_payloads_only_at_debug (privacy : bool) (w : world C)
    (m : logmsg C) :
  In m (visible (snd (invoke C device pssh server type_ raw privacy w))) ->
  exists s, m = Str s.
Proof.
  unfold visible.
  destruct privacy; run_license;
    repeat rewrite report_logged_info;
    repeat rewrite report_logged_error; simpl;
    rewrite ?app_nil_r; intros Hin;
    repeat (rewrite in_app_iff in Hin; simpl in Hin);
    repeat match goal with
           | H : _ \/ _ |- _ => destruct H as [H|H]
           | H : _ = m |- _ => rewrite <- H; eexists; reflexivity
           | H : False |- _ => contradiction
           | H : In m (map _ _) |- _ =>
               apply in_map_iff in H; destruct H as [k [H _]]
           end.
Qed.

End Records.

(** ** The key line *)

Lemma list_ascii_of_string_app (a b : string) :
  list_ascii_of_string (a ++ b)
  = (list_ascii_of_string a ++ list_ascii_of_string b)%list.
Proof.
  induction a as [|c a IH]; [reflexivity|].
  change (c :: list_ascii_of_string (a ++ b)
          = c :: (list_ascii_of_string a ++ list_ascii_of_string b)%list).
  rewrite IH. reflexivity.
Qed.

Lemma list_ascii_of_string_inj (a b : string) :
  list_ascii_of_string a = list_ascii_of_string b -> a = b.
Proof.
  intros H. rewrite <- (string_of_list_ascii_of_string a),
              <- (string_of_list_ascii_of_string b), H.
  reflexivity.
Qed.

(** A separator that does not occur before it is found at one place only. *)
Lemma split_at_first {A} (c : A) (a a' b b' : list A) :
  ~ In c a -> ~ In c a' ->
  (a ++ c :: b = a' ++ c :: b')%list -> a = a' /\ b = b'.
Proof.
  revert a'. induction a as [|x a IH]; intros [|y a'] Ha Ha' E; simpl in *.
  - injection E as <-. auto.
  - injection E as -> _. exfalso. apply Ha'. auto.
  - injection E as -> _. exfalso. apply Ha. auto.
  - injection E as -> E.
    destruct (IH a') as [-> ->]; auto.
Qed.

Lemma split_at_last {A} (c : A) (a a' b b' : list A) :
  ~ In c b -> ~ In c b' ->
  (a ++ c :: b = a' ++ c :: b')%list -> a = a' /\ b = b'.
Proof.
  intros Hb Hb' E.
  apply (f_equal (@rev A)) in E.
  rewrite !rev_app_distr in E. simpl in E. rewrite <- !app_assoc in E.
  simpl in E.
  apply split_at_first in E; try (rewrite <- in_rev; assumption).
  destruct E as [E1 E2].
  apply (f_equal (@rev A)) in E1, E2. rewrite !rev_involutive in E1, E2.
  auto.
Qed.

Lemma hex_inj (a b : bytes) : hex a = hex b -> a = b.
Proof.
  intros H. apply (f_equal fromhex) in H. rewrite !fromhex_hex in H.
  congruence.
Qed.

(** X11. The line printed for a key determines the key: two keys whose
    identifiers' [hex] attributes hold hexadecimal digits only, as a UUID's
    does, and that print the same line have the same type tag, the same
    identifier text and the same key material, whatever characters the
    type tag holds. *)
Theorem key_line_inj (k k' : Key) :
  all_hex_digits (KeyId.hex (kid k)) = true ->
  all_hex_digits (KeyId.hex (kid k')) = true ->
  key_line k = key_line k' ->
  type k = type k' /\ KeyId.hex (kid k) = KeyId.hex (kid k') /\ key k = key k'.
Proof.
  destruct k as [t [i] m], k' as [t' [i'] m']. unfold key_line.
  cbn [type kid key KeyId.hex].
  intros Hi Hi' E. apply (f_equal list_ascii_of_string) in E.
  rewrite !list_ascii_of_string_app in E. cbn [list_ascii_of_string] in E.
  set (T := list_ascii_of_string t) in *.
  set (T' := list_ascii_of_string t') in *.
  set (I := list_ascii_of_string i) in *.
  set (I' := list_ascii_of_string i') in *.
  set (M := list_ascii_of_string (hex m)) in *.
  set (M' := list_ascii_of_string (hex m')) in *.
  assert (HM : forall b, ~ In ":"%char (list_ascii_of_string (hex b))).
  { intros b Hin. apply hex_only_digits in Hin. discriminate Hin. }
  assert (HI : forall s, all_hex_digits s = true ->
                         ~ In " "%char (list_ascii_of_string s)).
  { intros s Hs Hin. apply (all_hex_digits_In s _ Hs) in Hin.
    discriminate Hin. }
  simpl in E.
  assert (E' : (((("["%char :: T) ++ ["]"%char]) ++ " "%char :: I) ++ ":"%char :: M
               = ((("["%char :: T') ++ ["]"%char]) ++ " "%char :: I') ++ ":"%char :: M')%list).
  { repeat (rewrite <- ?app_assoc; simpl). exact E. }
  apply split_at_last in E'; try apply HM. destruct E' as [E1 EM].
  apply split_at_last in E1; try (apply HI; assumption).
  destruct E1 as [ET EI].
  apply app_inv_tail in ET. injection ET as ET.
  apply list_ascii_of_string_inj in ET, EI, EM.
  apply hex_inj in EM. auto.
Qed.

(** ** [main] *)

Lemma append_inv_head (a b c : string) : a ++ b = a ++ c -> b = c.
Proof.
  induction a as [|x a IH]; intros E; [exact E|].
  apply IH. change (String x (a ++ b) = String x (a ++ c)) in E.
  congruence.
Qed.

(** X14. The banner names the single year 2022 exactly when the clock says
    2022; in any other year, a past one included, it names the range from
    2022 to the clock's year. *)
Theorem main_copyright_years (v : string) (year : Z) (version debug : bool) :
  (In (RootInfo ("pywidevine version " ++ v
                 ++ " Copyright (c) 2022 rlaphoenix"))
      (snd (main v year version debug)) <-> year = 2022) /\
  (In (RootInfo ("pywidevine version " ++ v ++ " Copyright (c) 2022-"
                 ++ str_int year ++ " rlaphoenix"))
      (snd (main v year version debug)) <-> year <> 2022).
Proof.
  unfold main. cbn [snd In].
  destruct (Z.eqb_spec 2022 year) as [<-|Hy]; cbn [negb];
    (split; split); intros H;
    first [ reflexivity
          | congruence
          | right; left; reflexivity
          | destruct H as [E|[E|[E|[]]]];
            first [ discriminate E
                  | injection E as E;
                    repeat apply append_inv_head in E;
                    vm_compute in E; discriminate E ] ].
Qed.

(** ** The completed acquisition *)

Section Completion.

Context (C : Collaborators).
Variables (device : Path) (pssh server type_ : string) (raw : bool).

(** X12. Without [--privacy], when the device loads, the session is created,
    the challenge is generated, the server answers it with status 200 and
    the session parses the answer, each call made in the world the
    previous one left, the invocation returns, its calls are the full flow
    and every key parsed is reported, in order. *)
Theorem license_acquires_keys (w w0 w1 w2 w3 w4 : world C)
    (t : LicenseType) (d : Device C) (c : Cdm C) (challenge : bytes)
    (resp : Response) (keys : list Key) :
  LicenseType_Value type_ = Returns t ->
  Device_load C device w = (Returns d, w0) ->
  Cdm_new C d pssh t raw w0 = (Returns c, w1) ->
  get_license_challenge C c true w1 = (Returns challenge, w2) ->
  requests_post C server challenge w2 = (Returns resp, w3) ->
  status_code resp = 200 ->
  parse_license C c (content resp) w3 = (Returns keys, w4) ->
  let tr := snd (invoke C device pssh server type_ raw false w) in
  fst (invoke C device pssh server type_ raw false w) = Returns tt /\
  calls tr = full_flow false /\
  logged ERROR tr = [] /\
  logged INFO (after is_parse tr)
  = Str "[+] License Parsed Successfully"
    :: map (fun k => Str (key_line k)) keys.
Proof.
  intros Ht Hd Hc Hg Hp Hs Hk.
  unfold invoke, license_;
    unfold bind, call, eval, attr, log_, ret, return_; simpl.
  rewrite Ht; simpl. rewrite Hd; simpl. rewrite Hc; simpl.
  rewrite Hg; simpl. rewrite Hp; simpl.
  rewrite (proj2 (Z.eqb_eq _ _) Hs); simpl. rewrite Hk; simpl.
  repeat run_step.
  rewrite report_calls, report_logged_error, report_logged_info.
  auto.
Qed.

(** X13. With [--privacy], when in addition the server answers the certificate
    challenge with status 200 and the session accepts the certificate, the
    invocation returns likewise, with the certificate set from the first
    answer before the challenge is generated. *)
Theorem license_acquires_keys_privately (w w0 w1 w2 w3 w4 w5 w6 : world C)
    (t : LicenseType) (d : Device C) (c : Cdm C) (cert : Response)
    (challenge : bytes) (resp : Response) (keys : list Key) :
  LicenseType_Value type_ = Returns t ->
  Device_load C device w = (Returns d, w0) ->
  Cdm_new C d pssh t raw w0 = (Returns c, w1) ->
  requests_post C server (service_certificate_challenge C c w1) w1
  = (Returns cert, w2) ->
  status_code cert = 200 ->
  set_service_certificate C c (content cert) w2 = (Returns tt, w3) ->
  get_license_challenge C c true w3 = (Returns challenge, w4) ->
  requests_post C server challenge w4 = (Returns resp, w5) ->
  status_code resp = 200 ->
  parse_license C c (content resp) w5 = (Returns keys, w6) ->
  let tr := snd (invoke C device pssh server type_ raw true w) in
  fst (invoke C device pssh server type_ raw true w) = Returns tt /\
  calls tr = full_flow true /\
  logged ERROR tr = [] /\
  In (EvSetServiceCertificate C c (content cert) (Returns tt))
     (before is_challenge tr) /\
  logged INFO (after is_parse tr)
  = Str "[+] License Parsed Successfully"
    :: map (fun k => Str (key_line k)) keys.
Proof.
  intros Ht Hd Hc Hq Hqs Hset Hg Hp Hs Hk.
  unfold invoke, license_;
    unfold bind, call, eval, attr, log_, ret, return_; simpl.
  rewrite Ht; simpl. rewrite Hd; simpl. rewrite Hc; simpl.
  rewrite Hq; simpl. rewrite (proj2 (Z.eqb_eq _ _) Hqs); simpl.
  rewrite Hset; simpl. rewrite Hg; simpl. rewrite Hp; simpl.
  rewrite (proj2 (Z.eqb_eq _ _) Hs); simpl. rewrite Hk; simpl.
  repeat run_step.
  rewrite report_calls, report_logged_error, report_logged_info.
  simpl. repeat split; try reflexivity.
  do 7 right; left; reflexivity.
Qed.

End Completion.

(** ** The scripted world: further instances *)

Module Instances.

Import Scripted.

Lemma license_raises_from_last_call_witness :
  fst (run false []) = Raises (Exc "ConnectionError") /\
  ((snd (run false []) = [] /\
    LicenseType_Value "STREAMING" = Raises (Exc "ConnectionError")) \/
   (exists (pre : list (event scenario)) (ev : event scenario),
      snd (run false []) = (pre ++ [ev])%list /\
      raised ev = Some (Exc "ConnectionError"))).
Proof.
  assert (H : fst (run false []) = Raises (Exc "ConnectionError"))
    by reflexivity.
  split; [exact H|].
  exact (license_raises_from_last_call scenario "test.dev" "AAAA"
           "http://svc/license" "STREAMING" false false [] _ H).
Defined.

Lemma license_raise_is_final_witness :
  In (EvPost (C:=scenario) "http://svc/license" [x08; x01; x12; x00]
       (Raises (Exc "ConnectionError"))) (snd (run false [])) /\
  raised (EvPost (C:=scenario) "http://svc/license" [x08; x01; x12; x00]
       (Raises (Exc "ConnectionError"))) = Some (Exc "ConnectionError") /\
  fst (run false []) = Raises (Exc "ConnectionError") /\
  exists pre : list (event scenario),
    snd (run false []) = (pre ++ [(EvPost (C:=scenario) "http://svc/license" [x08; x01; x12; x00]
       (Raises (Exc "ConnectionError")))])%list.
Proof.
  assert (H : In (EvPost (C:=scenario) "http://svc/license" [x08; x01; x12; x00]
       (Raises (Exc "ConnectionError"))) (snd (run false [])))
    by (do 9 right; left; reflexivity).
  assert (Hr : raised (EvPost (C:=scenario) "http://svc/license" [x08; x01; x12; x00]
       (Raises (Exc "ConnectionError"))) = Some (Exc "ConnectionError"))
    by reflexivity.
  split; [exact H|]. split; [exact Hr|].
  exact (license_raise_is_final scenario "test.dev" "AAAA"
           "http://svc/license" "STREAMING" false false [] _ _ H Hr).
Defined.

Lemma license_creates_one_session_witness :
  In (EvCdm scenario tt "AAAA" STREAMING false (Returns tt))
     (snd (run true [denied])) /\
  "AAAA" = "AAAA" /\ false = false /\
  LicenseType_Value "STREAMING" = Returns STREAMING /\
  hd_error (snd (run true [denied]))
  = Some (EvDeviceLoad scenario "test.dev" (Returns tt)) /\
  occurrences is_cdm (snd (run true [denied])) = 1%nat /\
  occurrences is_device_load (snd (run true [denied])) = 1%nat.
Proof.
  assert (H : In (EvCdm scenario tt "AAAA" STREAMING false (Returns tt))
                 (snd (run true [denied])))
    by (do 3 right; left; reflexivity).
  split; [exact H|].
  exact (license_creates_one_session scenario "test.dev" "AAAA"
           "http://svc/license" "STREAMING" false true [denied]
           _ _ _ _ _ H).
Defined.

Lemma license_uses_its_session_witness :
  In (EvParseLicense scenario tt [x08; x02] (Returns [content_key]))
     (snd (run false [granted])) /\
  session_of (EvParseLicense scenario tt [x08; x02] (Returns [content_key]))
  = Some tt /\
  exists d t,
    In (EvCdm scenario d "AAAA" t false (Returns tt))
       (before is_challenge (snd (run false [granted]))) /\
    LicenseType_Value "STREAMING" = Returns t.
Proof.
  assert (H : In (EvParseLicense scenario tt [x08; x02] (Returns [content_key]))
                 (snd (run false [granted])))
    by (do 12 right; left; reflexivity).
  assert (Hs : session_of
                 (EvParseLicense scenario tt [x08; x02] (Returns [content_key]))
               = Some tt) by reflexivity.
  split; [exact H|]. split; [exact Hs|].
  exact (license_uses_its_session scenario "test.dev" "AAAA"
           "http://svc/license" "STREAMING" false false [granted] _ _ H Hs).
Defined.

Lemma license_sets_fetched_certificate_witness :
  In (EvSetServiceCertificate scenario tt [x08; x02] (Returns tt))
     (snd (run true [granted; denied])) /\
  true = true /\
  exists data resp,
    hd_error (posts (snd (run true [granted; denied])))
    = Some ("http://svc/license", data, Returns resp) /\
    status_code resp = 200 /\ [x08; x02] = content resp.
Proof.
  assert (H : In (EvSetServiceCertificate scenario tt [x08; x02] (Returns tt))
                 (snd (run true [granted; denied])))
    by (do 7 right; left; reflexivity).
  split; [exact H|].
  exact (license_sets_fetched_certificate scenario "test.dev" "AAAA"
           "http://svc/license" "STREAMING" false true [granted; denied]
           _ _ _ H).
Defined.

Lemma license_fetches_certificate_first_witness :
  LicenseType_Value "STREAMING" = Returns STREAMING /\
  Device_load scenario "test.dev" [denied] = (Returns tt, [denied]) /\
  Cdm_new scenario tt "AAAA" STREAMING false [denied] = (Returns tt, [denied]) /\
  hd_error (posts (snd (run true [denied])))
  = Some ("http://svc/license", [x08; x04], Returns denied).
Proof.
  assert (Ht : LicenseType_Value "STREAMING" = Returns STREAMING)
    by reflexivity.
  assert (Hd : Device_load scenario "test.dev" [denied]
               = (Returns tt, [denied])) by reflexivity.
  assert (Hc : Cdm_new scenario tt "AAAA" STREAMING false [denied]
               = (Returns tt, [denied])) by reflexivity.
  split; [exact Ht|]. split; [exact Hd|]. split; [exact Hc|].
  exact (license_fetches_certificate_first scenario "test.dev" "AAAA"
           "http://svc/license" "STREAMING" false
           [denied] [denied] [denied] STREAMING tt tt Ht Hd Hc).
Defined.

Lemma license_certificate_before_challenge_witness :
  occurrences is_challenge (snd (run true [granted; denied])) = 1%nat /\
  exists c cert,
    In (EvSetServiceCertificate scenario c cert (Returns tt))
       (before is_challenge (snd (run true [granted; denied]))).
Proof.
  assert (H : occurrences is_challenge (snd (run true [granted; denied]))
              = 1%nat) by reflexivity.
  split; [exact H|].
  exact (license_certificate_before_challenge scenario "test.dev" "AAAA"
           "http://svc/license" "STREAMING" false [granted; denied] H).
Defined.

Lemma license_error_record_tells_failure_witness :
  fst (run false [denied]) = Returns tt /\
  (logged ERROR (snd (run false [denied])) = [] <->
   occurrences is_parse (snd (run false [denied])) = 1%nat).
Proof.
  assert (H : fst (run false [denied]) = Returns tt) by reflexivity.
  split; [exact H|].
  exact (proj2 (license_error_record_tells_failure scenario "test.dev" "AAAA"
                  "http://svc/license" "STREAMING" false false [denied]) H).
Defined.

Lemma license_payloads_only_at_debug_witness :
  In (Str "[CONTENT] 00000000000000000000000000001122:aabb")
     (visible (snd (run false [granted]))) /\
  exists s,
    @Str scenario "[CONTENT] 00000000000000000000000000001122:aabb" = Str s.
Proof.
  assert (H : In (Str "[CONTENT] 00000000000000000000000000001122:aabb")
                 (visible (snd (run false [granted]))))
    by (do 5 right; left; reflexivity).
  split; [exact H|].
  exact (license_payloads_only_at_debug scenario "test.dev" "AAAA"
           "http://svc/license" "STREAMING" false false [granted] _ H).
Defined.

Lemma key_line_inj_witness :
  all_hex_digits (KeyId.hex (kid content_key)) = true /\
  all_hex_digits (KeyId.hex (KeyId.make "00000000000000000000000000001122"))
  = true /\
  key_line content_key
  = key_line {| type := "CONTENT";
                kid := KeyId.make "00000000000000000000000000001122";
                key := [xaa; xbb] |} /\
  type content_key = "CONTENT" /\
  KeyId.hex (kid content_key) = "00000000000000000000000000001122" /\
  key content_key = [xaa; xbb].
Proof.
  assert (Hi : all_hex_digits (KeyId.hex (kid content_key)) = true)
    by reflexivity.
  assert (H : key_line content_key
              = key_line {| type := "CONTENT";
                            kid := KeyId.make "00000000000000000000000000001122";
                            key := [xaa; xbb] |}) by reflexivity.
  split; [exact Hi|]. split; [exact Hi|]. split; [exact H|].
  exact (key_line_inj _ _ Hi Hi H).
Defined.

Lemma license_acquires_keys_witness :
  LicenseType_Value "STREAMING" = Returns STREAMING /\
  Device_load scenario "test.dev" [granted] = (Returns tt, [granted]) /\
  Cdm_new scenario tt "AAAA" STREAMING false [granted]
  = (Returns tt, [granted]) /\
  get_license_challenge scenario tt true [granted]
  = (Returns [x08; x01; x12; x00], [granted]) /\
  requests_post scenario "http://svc/license" [x08; x01; x12; x00] [granted]
  = (Returns granted, []) /\
  status_code granted = 200 /\
  parse_license scenario tt (content granted) [] = (Returns [content_key], []) /\
  fst (run false [granted]) = Returns tt /\
  calls (snd (run false [granted])) = full_flow false /\
  logged ERROR (snd (run false [granted])) = [] /\
  logged INFO (after is_parse (snd (run false [granted])))
  = [Str "[+] License Parsed Successfully"; Str (key_line content_key)].
Proof.
  do 7 (split; [reflexivity|]).
  exact (license_acquires_keys scenario "test.dev" "AAAA"
           "http://svc/license" "STREAMING" false
           [granted] [granted] [granted] [granted] [] []
           STREAMING tt tt [x08; x01; x12; x00] granted [content_key]
           eq_refl eq_refl eq_refl eq_refl eq_refl eq_refl eq_refl).
Defined.

Lemma license_acquires_keys_privately_witness :
  LicenseType_Value "STREAMING" = Returns STREAMING /\
  Device_load scenario "test.dev" [granted; granted]
  = (Returns tt, [granted; granted]) /\
  Cdm_new scenario tt "AAAA" STREAMING false [granted; granted]
  = (Returns tt, [granted; granted]) /\
  requests_post scenario "http://svc/license"
    (service_certificate_challenge scenario tt [granted; granted])
    [granted; granted]
  = (Returns granted, [granted]) /\
  status_code granted = 200 /\
  set_service_certificate scenario tt (content granted) [granted]
  = (Returns tt, [granted]) /\
  get_license_challenge scenario tt true [granted]
  = (Returns [x08; x01; x12; x00], [granted]) /\
  requests_post scenario "http://svc/license" [x08; x01; x12; x00] [granted]
  = (Returns granted, []) /\
  parse_license scenario tt (content granted) [] = (Returns [content_key], []) /\
  fst (run true [granted; granted]) = Returns tt /\
  calls (snd (run true [granted; granted])) = full_flow true /\
  logged ERROR (snd (run true [granted; granted])) = [] /\
  In (EvSetServiceCertificate scenario tt (content granted) (Returns tt))
     (before is_challenge (snd (run true [granted; granted]))) /\
  logged INFO (after is_parse (snd (run true [granted; granted])))
  = [Str "[+] License Parsed Successfully"; Str (key_line content_key)].
Proof.
  do 9 (split; [reflexivity|]).
  exact (license_acquires_keys_privately scenario "test.dev" "AAAA"
           "http://svc/license" "STREAMING" false
           [granted; granted] [granted; granted] [granted; granted]
           [granted] [granted] [granted] [] []
           STREAMING tt tt granted [x08; x01; x12; x00] granted [content_key]
           eq_refl eq_refl eq_refl eq_refl eq_refl eq_refl eq_refl eq_refl
           eq_refl eq_refl).
Defined.

End Instances.
